(** * Mergington High School activities API (src/app.py)

    A shallow embedding of the FastAPI application: the two SQLModel tables,
    the queries the handlers issue through the session, the startup seeding
    and the three handlers [get_activities], [signup_for_activity] and
    [unregister_from_activity].

    The database engine itself is not part of the application.  It is
    modelled by what the handlers observe of it: a table is the list of its
    rows in scan order, [select ... .all()] filters that list, [.first()]
    takes the head of the filtered list, [session.add] followed by
    [session.commit] appends a row whose primary key is one more than the
    largest key in the table (SQLite's rule for an INTEGER PRIMARY KEY), and
    [session.delete] removes the rows carrying the deleted object's primary
    key.  An [HTTPException] raised by a handler leaves the session without
    a commit, so the store is returned as it was. *)

From stdpp Require Import base numbers list strings gmap.

Local Open Scope Z_scope.

(** ** Models *)

Module Activity.
Record t : Type := mk {
  id : Z;
  name : string;
  description : string;
  schedule : string;
  max_participants : Z
}.
End Activity.

Module Participant.
Record t : Type := mk {
  id : Z;
  email : string;
  activity_id : Z
}.
End Participant.

#[global] Instance Activity_eq_dec : EqDecision Activity.t.
Proof. solve_decision. Defined.

#[global] Instance Participant_eq_dec : EqDecision Participant.t.
Proof. solve_decision. Defined.

(** The persisted state: the tables [activity] and [participant]. *)
Record Store : Type := mkStore {
  activity : list Activity.t;
  participant : list Participant.t
}.

Definition empty_store : Store := mkStore [] [].

(** ** The session operations the handlers use *)

(** The largest key of a SQLite table, 2^63 - 1. *)
Definition max_rowid : Z := 9223372036854775807.

(** Primary key given to a row inserted with [id = None]: one more than
    the largest key of the table.  SQLite follows this rule as long as the
    largest key is below [max_rowid]; at that bound it takes some unused key
    instead, and the new row no longer comes last in a scan.  Statements that
    depend on the position of a new row say so. *)
Definition next_id (ids : list Z) : Z :=
  match ids with
  | [] => 1
  | i :: rest => 1 + foldr Z.max i rest
  end.

(** [session.add(Activity(...)); session.commit(); session.refresh(act)]:
    the store with the new row, and the row as refreshed (with its key). *)
Definition add_activity (s : Store) (n d sch : string) (m : Z)
  : Store * Activity.t :=
  let act := Activity.mk (next_id (Activity.id <$> activity s)) n d sch m in
  (mkStore (activity s ++ [act]) (participant s), act).

(** [session.add(Participant(email=..., activity_id=...))], once flushed. *)
Definition add_participant (s : Store) (e : string) (aid : Z) : Store :=
  let p := Participant.mk (next_id (Participant.id <$> participant s)) e aid in
  mkStore (activity s) (participant s ++ [p]).

(** [session.delete(p); session.commit()]: DELETE ... WHERE id = p.id. *)
Definition delete_participant (s : Store) (p : Participant.t) : Store :=
  mkStore (activity s)
          (filter (λ q, Participant.id q ≠ Participant.id p) (participant s)).

(** [select(Activity).where(Activity.name == n)] then [.first()]. *)
Definition select_activity_by_name (s : Store) (n : string)
  : option Activity.t :=
  head (filter (λ a, Activity.name a = n) (activity s)).

(** [select(Participant).where(Participant.activity_id == aid)] then
    [.all()]. *)
Definition select_participants (s : Store) (aid : Z) : list Participant.t :=
  filter (λ p, Participant.activity_id p = aid) (participant s).

(** [select(Participant).where(Participant.activity_id == aid,
    Participant.email == e)] then [.first()]. *)
Definition select_participant (s : Store) (aid : Z) (e : string)
  : option Participant.t :=
  head (filter (λ p, Participant.activity_id p = aid ∧ Participant.email p = e)
               (participant s)).

(** ** Startup seeding *)

(** One entry of the [initial] dictionary: name, description, schedule,
    max_participants, participants. *)
Definition seed_entry : Type := string * string * string * Z * list string.

Definition initial : list seed_entry :=
  [ ("Chess Club",
     "Learn strategies and compete in chess tournaments",
     "Fridays, 3:30 PM - 5:00 PM",
     12, ["michael@mergington.edu"; "daniel@mergington.edu"]);
    ("Programming Class",
     "Learn programming fundamentals and build software projects",
     "Tuesdays and Thursdays, 3:30 PM - 4:30 PM",
     20, ["emma@mergington.edu"; "sophia@mergington.edu"]);
    ("Gym Class",
     "Physical education and sports activities",
     "Mondays, Wednesdays, Fridays, 2:00 PM - 3:00 PM",
     30, ["john@mergington.edu"; "olivia@mergington.edu"]);
    ("Soccer Team",
     "Join the school soccer team and compete in matches",
     "Tuesdays and Thursdays, 4:00 PM - 5:30 PM",
     22, ["liam@mergington.edu"; "noah@mergington.edu"]);
    ("Basketball Team",
     "Practice and play basketball with the school team",
     "Wednesdays and Fridays, 3:30 PM - 5:00 PM",
     15, ["ava@mergington.edu"; "mia@mergington.edu"]);
    ("Art Club",
     "Explore your creativity through painting and drawing",
     "Thursdays, 3:30 PM - 5:00 PM",
     15, ["amelia@mergington.edu"; "harper@mergington.edu"]);
    ("Drama Club",
     "Act, direct, and produce plays and performances",
     "Mondays and Wednesdays, 4:00 PM - 5:30 PM",
     20, ["ella@mergington.edu"; "scarlett@mergington.edu"]);
    ("Math Club",
     "Solve challenging problems and participate in math competitions",
     "Tuesdays, 3:30 PM - 4:30 PM",
     10, ["james@mergington.edu"; "benjamin@mergington.edu"]);
    ("Debate Team",
     "Develop public speaking and argumentation skills",
     "Fridays, 4:00 PM - 5:30 PM",
     12, ["charlotte@mergington.edu"; "henry@mergington.edu"]) ].

(** One turn of the loop [for name, data in initial.items()]. *)
Definition seed_one (s : Store) (entry : seed_entry) : Store :=
  let '(n, d, sch, m, emails) := entry in
  let '(s1, act) := add_activity s n d sch m in
  foldl (λ s' e, add_participant s' e (Activity.id act)) s1 emails.

(** Seed the store with the initial activities only if none exist. *)
Definition seed_initial_data (s : Store) : Store :=
  match head (activity s) with
  | Some _ => s
  | None => foldl seed_one s initial
  end.

(** ** Handlers *)

(** What a handler hands back: the JSON body [{"message": ...}], or the
    [HTTPException] it raised. *)
Inductive Response : Type :=
  | Message (message : string)
  | HTTPException (status_code : Z) (detail : string).

(** The value stored under an activity's name by [get_activities]. *)
Record ActivityInfo : Type := mkInfo {
  description : string;
  schedule : string;
  max_participants : Z;
  participants : list string
}.

Definition activity_info (s : Store) (act : Activity.t) : ActivityInfo :=
  mkInfo (Activity.description act) (Activity.schedule act)
         (Activity.max_participants act)
         (Participant.email <$> select_participants s (Activity.id act)).

(** GET /activities: a dict keyed by activity name, filled row by row. *)
Definition get_activities (s : Store) : gmap string ActivityInfo :=
  foldl (λ result act, <[Activity.name act := activity_info s act]> result)
        ∅ (activity s).

(** POST /activities/{activity_name}/signup *)
Definition signup_for_activity (activity_name email : string) (s : Store)
  : Response * Store :=
  match select_activity_by_name s activity_name with
  | None => (HTTPException 404 "Activity not found", s)
  | Some act =>
      let current := select_participants s (Activity.id act) in
      if existsb (λ p, bool_decide (Participant.email p = email)) current
      then (HTTPException 400 "Student is already signed up", s)
      else if Z.of_nat (length current) >=? Activity.max_participants act
      then (HTTPException 400 "Activity is full", s)
      else (Message ("Signed up " +:+ email +:+ " for " +:+ activity_name),
            add_participant s email (Activity.id act))
  end.

(** DELETE /activities/{activity_name}/unregister *)
Definition unregister_from_activity (activity_name email : string) (s : Store)
  : Response * Store :=
  match select_activity_by_name s activity_name with
  | None => (HTTPException 404 "Activity not found", s)
  | Some act =>
      match select_participant s (Activity.id act) email with
      | None =>
          (HTTPException 400 "Student is not signed up for this activity", s)
      | Some p =>
          (Message ("Unregistered " +:+ email +:+ " from " +:+ activity_name),
           delete_participant s p)
      end
  end.

(** ** Constraints of the schema and invariants of the data model *)

(** What the table declarations promise: [id] is the primary key of each
    table and [participant.activity_id] is a foreign key to [activity.id]. *)
Definition activity_pk (s : Store) : Prop :=
  NoDup (Activity.id <$> activity s).

Definition participant_pk (s : Store) : Prop :=
  NoDup (Participant.id <$> participant s).

Definition foreign_key (s : Store) : Prop :=
  Forall (λ p, Participant.activity_id p ∈ (Activity.id <$> activity s))
         (participant s).

Definition wf_store (s : Store) : Prop :=
  activity_pk s ∧ participant_pk s ∧ foreign_key s.

#[global] Instance activity_pk_dec s : Decision (activity_pk s).
Proof. unfold activity_pk. apply _. Defined.

#[global] Instance participant_pk_dec s : Decision (participant_pk s).
Proof. unfold participant_pk. apply _. Defined.

#[global] Instance foreign_key_dec s : Decision (foreign_key s).
Proof. unfold foreign_key. apply _. Defined.

#[global] Instance wf_store_dec s : Decision (wf_store s).
Proof. unfold wf_store. apply _. Defined.

(** Number of participant rows that reference the activity with key [aid]. *)
Definition participant_count (s : Store) (aid : Z) : Z :=
  Z.of_nat (length (select_participants s aid)).

(** No activity holds more participants than its capacity. *)
Definition capacity_ok (s : Store) : Prop :=
  Forall (λ a, participant_count s (Activity.id a) ≤ Activity.max_participants a)
         (activity s).

#[global] Instance capacity_ok_dec s : Decision (capacity_ok s).
Proof. unfold capacity_ok. apply _. Defined.

(** The pair (activity_id, email) a participant row stands for. *)
Definition signup_key (p : Participant.t) : Z * string :=
  (Participant.activity_id p, Participant.email p).

(** No student is signed up twice for the same activity. *)
Definition unique_signup (s : Store) : Prop :=
  NoDup (signup_key <$> participant s).

#[global] Instance unique_signup_dec s : Decision (unique_signup s).
Proof. unfold unique_signup. apply _. Defined.

(** The emails registered for the activity with key [aid], in row order. *)
Definition emails_of (s : Store) (aid : Z) : list string :=
  Participant.email <$> select_participants s aid.

(** How a name resolves to a row. *)
Definition no_activity_named (s : Store) (n : string) : Prop :=
  ∀ a, a ∈ activity s → Activity.name a ≠ n.

Definition first_activity_named (s : Store) (n : string) (act : Activity.t)
  : Prop :=
  ∃ before after,
    activity s = before ++ act :: after ∧
    Activity.name act = n ∧
    ∀ a, a ∈ before → Activity.name a ≠ n.

(** ** Example stores and the contracts of the handlers *)

(** The freshly seeded store: startup on an empty database. *)
Definition seeded : Store := seed_initial_data empty_store.

(** A store in which an activity holds more participants than its capacity
    (two rows against a capacity of one), as left behind by two signups that
    both passed the capacity check before either wrote, or by a capacity
    lowered from outside. *)
Definition over_capacity : Store :=
  mkStore
    [Activity.mk 1 "Chess Club"
       "Learn strategies and compete in chess tournaments"
       "Fridays, 3:30 PM - 5:00 PM" 1]
    [Participant.mk 1 "michael@mergington.edu" 1;
     Participant.mk 2 "daniel@mergington.edu" 1].

(** What a signup answers, for a given reading [full count capacity] of
    when an activity takes no more participants: 404 for an unknown name;
    otherwise 400 for an email already registered; otherwise 400 when the
    activity is full; otherwise success, and the participant table gains
    exactly the row (fresh key, email, key of the activity). *)
Definition signup_contract (full : Z → Z → Prop)
    (s : Store) (n e : string) : Prop :=
  (no_activity_named s n →
   signup_for_activity n e s = (HTTPException 404 "Activity not found", s)) ∧
  (∀ act, first_activity_named s n act →
     (e ∈ emails_of s (Activity.id act) →
      signup_for_activity n e s =
        (HTTPException 400 "Student is already signed up", s)) ∧
     (e ∉ emails_of s (Activity.id act) →
      full (participant_count s (Activity.id act))
           (Activity.max_participants act) →
      signup_for_activity n e s =
        (HTTPException 400 "Activity is full", s)) ∧
     (e ∉ emails_of s (Activity.id act) →
      ¬ full (participant_count s (Activity.id act))
             (Activity.max_participants act) →
      signup_for_activity n e s =
        (Message ("Signed up " +:+ e +:+ " for " +:+ n),
         mkStore (activity s)
                 (participant s ++
                  [Participant.mk (next_id (Participant.id <$> participant s))
                                  e (Activity.id act)])))).

(** What an unregistration answers: 404 for an unknown name; otherwise 400
    when no participant row carries (key of the activity, email); otherwise
    success, and exactly that row leaves the participant table. *)
Definition unregister_contract (s : Store) (n e : string) : Prop :=
  (no_activity_named s n →
   unregister_from_activity n e s =
     (HTTPException 404 "Activity not found", s)) ∧
  (∀ act, first_activity_named s n act →
     (e ∉ emails_of s (Activity.id act) →
      unregister_from_activity n e s =
        (HTTPException 400 "Student is not signed up for this activity", s)) ∧
     (e ∈ emails_of s (Activity.id act) →
      ∃ p before after,
        participant s = before ++ p :: after ∧
        Participant.activity_id p = Activity.id act ∧
        Participant.email p = e ∧
        unregister_from_activity n e s =
          (Message ("Unregistered " +:+ e +:+ " from " +:+ n),
           mkStore (activity s) (before ++ after)))).

(** Number of times [e] occurs in a list of emails. *)
Definition occurrences (e : string) (l : list string) : nat :=
  length (filter (λ x, x = e) l).

(** The content of a store in the shape of the [initial] dictionary. *)
Definition dataset_of (s : Store) : list seed_entry :=
  (λ a, (Activity.name a, Activity.description a, Activity.schedule a,
         Activity.max_participants a, emails_of s (Activity.id a)))
  <$> activity s.

(** What a signup and an unregister may change: never the activity table;
    of the participant table, a signup at most appends one row and an
    unregister at most removes one row, and either row references the
    activity the name resolves to; the participant rows of every other
    activity are what they were. *)
Definition frame_contract (s : Store) (n e : string) : Prop :=
  let s1 := snd (signup_for_activity n e s) in
  let s2 := snd (unregister_from_activity n e s) in
  activity s1 = activity s ∧
  activity s2 = activity s ∧
  (s1 = s ∨
   ∃ act, first_activity_named s n act ∧
          participant s1 =
            participant s ++
            [Participant.mk (next_id (Participant.id <$> participant s))
                            e (Activity.id act)]) ∧
  (s2 = s ∨
   ∃ act p before after,
     first_activity_named s n act ∧
     participant s = before ++ p :: after ∧
     Participant.activity_id p = Activity.id act ∧
     Participant.email p = e ∧
     participant s2 = before ++ after) ∧
  (∀ aid, (∀ act, first_activity_named s n act → aid ≠ Activity.id act) →
          select_participants s1 aid = select_participants s aid ∧
          select_participants s2 aid = select_participants s aid).

(** A store with two rows named Chess Club, which the schema admits. *)
Definition two_chess_clubs : Store :=
  mkStore
    [Activity.mk 1 "Chess Club" "Learn strategies" "Fridays" 12;
     Activity.mk 2 "Chess Club" "Advanced group" "Mondays" 1]
    [Participant.mk 1 "michael@mergington.edu" 1;
     Participant.mk 2 "daniel@mergington.edu" 2].

(** What the handlers do with a name carried by a row [first] and, further
    down the table, by a row [latest].  The signup is decided on the
    participants of [first] and, when it succeeds, appends the row (fresh
    key, email, key of [first]) to the participant table; the
    unregistration looks for the email among the participants of [first]
    and removes that one row; the listing has, under the name, the
    description, schedule and capacity of [latest] and the emails of the
    participant rows that reference [latest]. *)
Definition duplicate_name_contract (s : Store) (n e : string)
    (first latest : Activity.t) : Prop :=
  select_activity_by_name s n = Some first ∧
  signup_for_activity n e s =
    (if decide (e ∈ emails_of s (Activity.id first))
     then (HTTPException 400 "Student is already signed up", s)
     else if decide (Activity.max_participants first
                     ≤ participant_count s (Activity.id first))
     then (HTTPException 400 "Activity is full", s)
     else (Message ("Signed up " +:+ e +:+ " for " +:+ n),
           mkStore (activity s)
                   (participant s ++
                    [Participant.mk
                       (next_id (Participant.id <$> participant s))
                       e (Activity.id first)]))) ∧
  (((e ∉ emails_of s (Activity.id first)) ∧
    unregister_from_activity n e s =
      (HTTPException 400 "Student is not signed up for this activity", s)) ∨
   (∃ p before after,
      participant s = before ++ p :: after ∧
      Participant.activity_id p = Activity.id first ∧
      Participant.email p = e ∧
      unregister_from_activity n e s =
        (Message ("Unregistered " +:+ e +:+ " from " +:+ n),
         mkStore (activity s) (before ++ after)))) ∧
  (∃ info,
     get_activities s !! n = Some info ∧
     description info = Activity.description latest ∧
     schedule info = Activity.schedule latest ∧
     max_participants info = Activity.max_participants latest ∧
     participants info =
       Participant.email <$>
         filter (λ p, Participant.activity_id p = Activity.id latest)
                (participant s)).

(** The stores that startup and the two writing handlers produce, starting
    from an empty database. *)
Inductive reachable : Store → Prop :=
  | reachable_empty : reachable empty_store
  | reachable_seed s : reachable s → reachable (seed_initial_data s)
  | reachable_signup s n e :
      reachable s → reachable (snd (signup_for_activity n e s))
  | reachable_unregister s n e :
      reachable s → reachable (snd (unregister_from_activity n e s)).

(** ** Lists: first match, fresh keys, deletion by key *)

Section first_match.
Context {A : Type} (P : A → Prop) {Pdec : ∀ x, Decision (P x)}.

Lemma head_filter_None (l : list A) :
  head (filter P l) = None ↔ ∀ x, x ∈ l → ¬ P x.
Proof.
  induction l as [|y l IH]; simpl.
  - split; [intros _ x Hx; by apply elem_of_nil in Hx | done].
  - rewrite filter_cons. destruct (decide (P y)) as [Hy|Hy]; simpl.
    + split; [done|]. intros H. exfalso. apply (H y); [left | done].
    + rewrite IH. split.
      * intros H x Hx. apply elem_of_cons in Hx as [->|Hx]; auto.
      * intros H x Hx. apply H. by right.
Qed.

Lemma filter_no_match (l : list A) :
  (∀ x, x ∈ l → ¬ P x) → filter P l = [].
Proof.
  intros H. apply head_filter_None in H. by destruct (filter P l).
Qed.

Lemma head_filter_Some (l : list A) (x : A) :
  head (filter P l) = Some x ↔
  ∃ l1 l2, l = l1 ++ x :: l2 ∧ P x ∧ ∀ y, y ∈ l1 → ¬ P y.
Proof.
  induction l as [|y l IH]; simpl.
  - split; [done|]. intros (l1 & l2 & H & _). by destruct l1.
  - rewrite filter_cons. destruct (decide (P y)) as [Hy|Hy]; simpl.
    + split.
      * intros [= ->]. exists [], l. split_and!; [done..|].
        intros z Hz. by apply elem_of_nil in Hz.
      * intros (l1 & l2 & H & Hx & Hl1). destruct l1 as [|z l1].
        { by injection H as -> _. }
        injection H as -> _. exfalso. apply (Hl1 z); [left | done].
    + rewrite IH. split.
      * intros (l1 & l2 & -> & Hx & Hl1). exists (y :: l1), l2.
        split_and!; [done..|].
        intros z Hz. apply elem_of_cons in Hz as [->|Hz]; auto.
      * intros (l1 & l2 & H & Hx & Hl1). destruct l1 as [|z l1].
        { injection H as -> _. done. }
        injection H as -> ->. exists l1, l2. split_and!; [done..|].
        intros w Hw. apply Hl1. by right.
Qed.
End first_match.

Lemma foldr_max_ge (i : Z) (rest : list Z) :
  i ≤ foldr Z.max i rest ∧ ∀ j, j ∈ rest → j ≤ foldr Z.max i rest.
Proof.
  induction rest as [|k rest [IH1 IH2]]; simpl.
  - split; [lia|]. intros j Hj. by apply elem_of_nil in Hj.
  - split; [lia|]. intros j Hj. apply elem_of_cons in Hj as [->|Hj].
    + lia.
    + specialize (IH2 j Hj). lia.
Qed.

Lemma next_id_above (ids : list Z) (i : Z) : i ∈ ids → i < next_id ids.
Proof.
  destruct ids as [|k rest]; simpl.
  - intros H. by apply elem_of_nil in H.
  - destruct (foldr_max_ge k rest) as [H1 H2].
    intros H. apply elem_of_cons in H as [->|H]; [lia|].
    specialize (H2 i H). lia.
Qed.

Lemma next_id_fresh (ids : list Z) : next_id ids ∉ ids.
Proof. intros H. apply next_id_above in H. lia. Qed.

Section delete_by_key.
Context {A : Type} (key : A → Z).

Lemma filter_key_absent (l : list A) (k : Z) :
  k ∉ (key <$> l) → filter (λ q, key q ≠ k) l = l.
Proof.
  induction l as [|y l IH]; [done|]. rewrite fmap_cons, not_elem_of_cons.
  intros [Hk Hl]. rewrite filter_cons.
  destruct (decide (key y ≠ k)) as [_|Hn]; [by rewrite IH|].
  exfalso. apply Hn. congruence.
Qed.

Lemma filter_key_unique (l1 l2 : list A) (x : A) :
  NoDup (key <$> (l1 ++ x :: l2)) →
  filter (λ q, key q ≠ key x) (l1 ++ x :: l2) = l1 ++ l2.
Proof.
  rewrite fmap_app, fmap_cons. intros Hnd.
  apply NoDup_app in Hnd as (_ & Hdisj & Hnd).
  apply NoDup_cons in Hnd as [Hx _].
  rewrite filter_app, filter_cons.
  destruct (decide (key x ≠ key x)); [done|].
  rewrite !filter_key_absent; [done..|].
  intros H. apply (Hdisj _ H). left.
Qed.
End delete_by_key.

(** ** How the handlers' queries read the tables *)

Lemma select_activity_by_name_None (s : Store) (n : string) :
  select_activity_by_name s n = None ↔ no_activity_named s n.
Proof. unfold select_activity_by_name. by rewrite head_filter_None. Qed.

Lemma select_activity_by_name_Some (s : Store) (n : string) (act : Activity.t) :
  select_activity_by_name s n = Some act ↔ first_activity_named s n act.
Proof. unfold select_activity_by_name. by rewrite head_filter_Some. Qed.

Lemma activity_resolution (s : Store) (n : string) :
  no_activity_named s n ∨ ∃ act, first_activity_named s n act.
Proof.
  destruct (select_activity_by_name s n) as [act|] eqn:E.
  - right. exists act. by apply select_activity_by_name_Some.
  - left. by apply select_activity_by_name_None.
Qed.

Lemma first_activity_named_elem (s : Store) (n : string) (act : Activity.t) :
  first_activity_named s n act → act ∈ activity s ∧ Activity.name act = n.
Proof.
  intros (l1 & l2 & -> & Hn & _). split; [|done].
  apply elem_of_app. right. left.
Qed.

Lemma first_activity_named_same_table (s s' : Store) (n : string)
    (act : Activity.t) :
  activity s' = activity s →
  first_activity_named s n act → first_activity_named s' n act.
Proof. unfold first_activity_named. by intros ->. Qed.

Lemma elem_of_emails_of (s : Store) (aid : Z) (e : string) :
  e ∈ emails_of s aid ↔
  ∃ p, p ∈ participant s ∧ Participant.activity_id p = aid ∧
       Participant.email p = e.
Proof.
  unfold emails_of, select_participants. rewrite list_elem_of_fmap. split.
  - intros (p & -> & Hp). apply list_elem_of_filter in Hp as [Ha Hp]. eauto.
  - intros (p & Hp & Ha & <-). exists p. split; [done|].
    by apply list_elem_of_filter.
Qed.

Lemma existsb_email (current : list Participant.t) (e : string) :
  existsb (λ p, bool_decide (Participant.email p = e)) current = true ↔
  e ∈ (Participant.email <$> current).
Proof.
  rewrite existsb_exists, list_elem_of_fmap. split.
  - intros (p & Hp & Hb). apply bool_decide_eq_true in Hb.
    exists p. by rewrite <- list_elem_of_In in Hp.
  - intros (p & -> & Hp). exists p. rewrite <- list_elem_of_In.
    split; [done|]. by apply bool_decide_eq_true.
Qed.

Lemma select_participant_None (s : Store) (aid : Z) (e : string) :
  select_participant s aid e = None ↔ e ∉ emails_of s aid.
Proof.
  unfold select_participant. rewrite head_filter_None, elem_of_emails_of.
  split.
  - intros H (p & Hp & Ha & He). by apply (H p Hp).
  - intros H p Hp [Ha He]. apply H. eauto.
Qed.

(** ** The branches of [signup_for_activity] *)

Lemma signup_not_found (s : Store) (n e : string) :
  no_activity_named s n →
  signup_for_activity n e s = (HTTPException 404 "Activity not found", s).
Proof.
  intros H. apply select_activity_by_name_None in H.
  unfold signup_for_activity. by rewrite H.
Qed.

Lemma signup_already (s : Store) (n e : string) (act : Activity.t) :
  first_activity_named s n act →
  e ∈ emails_of s (Activity.id act) →
  signup_for_activity n e s =
    (HTTPException 400 "Student is already signed up", s).
Proof.
  intros H He. apply select_activity_by_name_Some in H.
  unfold signup_for_activity. rewrite H. cbv zeta.
  apply existsb_email in He. by rewrite He.
Qed.

Lemma signup_full (s : Store) (n e : string) (act : Activity.t) :
  first_activity_named s n act →
  e ∉ emails_of s (Activity.id act) →
  Activity.max_participants act ≤ participant_count s (Activity.id act) →
  signup_for_activity n e s = (HTTPException 400 "Activity is full", s).
Proof.
  intros H He Hc. apply select_activity_by_name_Some in H.
  unfold signup_for_activity. rewrite H. cbv zeta.
  destruct (existsb _ _) eqn:Ex; [by apply existsb_email in Ex|].
  unfold participant_count in Hc.
  destruct (Z.geb_spec (Z.of_nat (length (select_participants s (Activity.id act))))
                       (Activity.max_participants act)); [done | lia].
Qed.

Lemma signup_ok (s : Store) (n e : string) (act : Activity.t) :
  first_activity_named s n act →
  e ∉ emails_of s (Activity.id act) →
  participant_count s (Activity.id act) < Activity.max_participants act →
  signup_for_activity n e s =
    (Message ("Signed up " +:+ e +:+ " for " +:+ n),
     add_participant s e (Activity.id act)).
Proof.
  intros H He Hc. apply select_activity_by_name_Some in H.
  unfold signup_for_activity. rewrite H. cbv zeta.
  destruct (existsb _ _) eqn:Ex; [by apply existsb_email in Ex|].
  unfold participant_count in Hc.
  destruct (Z.geb_spec (Z.of_nat (length (select_participants s (Activity.id act))))
                       (Activity.max_participants act)); [lia | done].
Qed.

(** Every call takes one of the four branches. *)
Lemma signup_cases (s : Store) (n e : string) :
  signup_for_activity n e s = (HTTPException 404 "Activity not found", s) ∨
  signup_for_activity n e s =
    (HTTPException 400 "Student is already signed up", s) ∨
  signup_for_activity n e s = (HTTPException 400 "Activity is full", s) ∨
  ∃ act, first_activity_named s n act ∧
         (e ∉ emails_of s (Activity.id act)) ∧
         participant_count s (Activity.id act) < Activity.max_participants act ∧
         signup_for_activity n e s =
           (Message ("Signed up " +:+ e +:+ " for " +:+ n),
            add_participant s e (Activity.id act)).
Proof.
  destruct (activity_resolution s n) as [H|[act H]].
  { left. by apply signup_not_found. }
  destruct (decide (e ∈ emails_of s (Activity.id act))) as [He|He].
  { right; left. by eapply signup_already. }
  destruct (decide (participant_count s (Activity.id act)
                    < Activity.max_participants act)) as [Hc|Hc].
  - do 3 right. exists act. split_and!; [done..|]. by apply signup_ok.
  - right; right; left. eapply signup_full; [done..|lia].
Qed.

(** ** The branches of [unregister_from_activity] *)

Lemma unregister_not_found (s : Store) (n e : string) :
  no_activity_named s n →
  unregister_from_activity n e s =
    (HTTPException 404 "Activity not found", s).
Proof.
  intros H. apply select_activity_by_name_None in H.
  unfold unregister_from_activity. by rewrite H.
Qed.

Lemma unregister_not_signed_up (s : Store) (n e : string) (act : Activity.t) :
  first_activity_named s n act →
  e ∉ emails_of s (Activity.id act) →
  unregister_from_activity n e s =
    (HTTPException 400 "Student is not signed up for this activity", s).
Proof.
  intros H He. apply select_activity_by_name_Some in H.
  apply select_participant_None in He.
  unfold unregister_from_activity. by rewrite H, He.
Qed.

Lemma unregister_ok (s : Store) (n e : string) (act : Activity.t) :
  first_activity_named s n act →
  e ∈ emails_of s (Activity.id act) →
  ∃ p before after,
    participant s = before ++ p :: after ∧
    Participant.activity_id p = Activity.id act ∧
    Participant.email p = e ∧
    (∀ q, q ∈ before →
          ¬ (Participant.activity_id q = Activity.id act ∧
             Participant.email q = e)) ∧
    unregister_from_activity n e s =
      (Message ("Unregistered " +:+ e +:+ " from " +:+ n),
       delete_participant s p).
Proof.
  intros H He. apply select_activity_by_name_Some in H.
  destruct (select_participant s (Activity.id act) e) as [p|] eqn:Ep.
  2: { by apply select_participant_None in Ep. }
  pose proof Ep as Ep'. unfold select_participant in Ep'.
  apply head_filter_Some in Ep' as (l1 & l2 & Hl & [Ha Hm] & Hb).
  exists p, l1, l2. split_and!; [done..|].
  unfold unregister_from_activity. by rewrite H, Ep.
Qed.

Lemma unregister_cases (s : Store) (n e : string) :
  unregister_from_activity n e s =
    (HTTPException 404 "Activity not found", s) ∨
  unregister_from_activity n e s =
    (HTTPException 400 "Student is not signed up for this activity", s) ∨
  ∃ act p before after,
    first_activity_named s n act ∧
    participant s = before ++ p :: after ∧
    Participant.activity_id p = Activity.id act ∧
    Participant.email p = e ∧
    unregister_from_activity n e s =
      (Message ("Unregistered " +:+ e +:+ " from " +:+ n),
       delete_participant s p).
Proof.
  destruct (activity_resolution s n) as [H|[act H]].
  { left. by apply unregister_not_found. }
  destruct (decide (e ∈ emails_of s (Activity.id act))) as [He|He].
  - right; right.
    destruct (unregister_ok s n e act H He) as (p & l1 & l2 & ? & ? & ? & _ & ?).
    by exists act, p, l1, l2.
  - right; left. by eapply unregister_not_signed_up.
Qed.

(** ** Signup *)

(** C1, as stated (full means count = max_participants), fails: in
    [over_capacity] the count is 2 and the capacity 1, so the claim promises
    an insertion, and the handler answers 400 "Activity is full". *)
Lemma signup_count_equals_capacity_fails :
  ¬ signup_contract (λ count capacity, count = capacity)
      over_capacity "Chess Club" "test@mergington.edu".
Proof.
  intros [_ H].
  destruct (H (Activity.mk 1 "Chess Club"
                 "Learn strategies and compete in chess tournaments"
                 "Fridays, 3:30 PM - 5:00 PM" 1)) as (_ & _ & Hins).
  { by apply select_activity_by_name_Some. }
  assert (signup_for_activity "Chess Club" "test@mergington.edu" over_capacity
          = (HTTPException 400 "Activity is full", over_capacity)) as Hrun
    by reflexivity.
  rewrite Hins in Hrun; [discriminate | compute_done | compute_done].
Qed.

(** C1, amended: for every store and every (activity name, email), signup
    answers 404 if no activity has that name; otherwise 400 if the email is
    already registered for the activity the name resolves to; otherwise 400
    if the participant count is greater than or equal to max_participants;
    otherwise it appends exactly one participant row (activity key, email)
    and answers with the success message. *)
Theorem signup_meets_contract (s : Store) (n e : string) :
  signup_contract (λ count capacity, capacity ≤ count) s n e.
Proof.
  split; [apply signup_not_found|].
  intros act Hact. split_and!.
  - by apply signup_already.
  - by apply signup_full.
  - intros He Hc. simpl in Hc. rewrite (signup_ok s n e act); [done..|lia].
Qed.

(** ** Unregister *)

(** C2: in every store whose participant rows have distinct primary keys,
    unregister answers 404 if no activity has the name; otherwise 400 (not
    404) if no participant row matches (that activity, email); otherwise it
    deletes that one row and answers with the success message. *)
Theorem unregister_meets_contract (s : Store) (n e : string) :
  participant_pk s → unregister_contract s n e.
Proof.
  intros Hpk. split; [apply unregister_not_found|].
  intros act Hact. split; [by apply unregister_not_signed_up|].
  intros He.
  destruct (unregister_ok s n e act Hact He)
    as (p & l1 & l2 & Hl & Ha & Hm & _ & Hrun).
  exists p, l1, l2. split_and!; [done..|]. rewrite Hrun.
  unfold delete_participant. f_equal. f_equal. rewrite Hl.
  apply filter_key_unique. unfold participant_pk in Hpk. by rewrite Hl in Hpk.
Qed.

(** The seeded store has distinct participant keys; michael leaves the
    Chess Club there. *)
Lemma unregister_meets_contract_witness :
  participant_pk seeded ∧
  unregister_contract seeded "Chess Club" "michael@mergington.edu".
Proof.
  split; [compute_done|].
  apply (unregister_meets_contract seeded "Chess Club" "michael@mergington.edu").
  compute_done.
Defined.

(** ** Effect of the writes on what the queries return *)

Lemma NoDup_fmap_eq {A B : Type} (f : A → B) (l : list A) (x y : A) :
  NoDup (f <$> l) → x ∈ l → y ∈ l → f x = f y → x = y.
Proof.
  induction l as [|z l IH]; simpl.
  - intros _ Hx. by apply elem_of_nil in Hx.
  - rewrite NoDup_cons, !elem_of_cons, list_elem_of_fmap.
    intros [Hz Hnd] [->|Hx] [->|Hy] Hf; auto.
    + exfalso. apply Hz. by exists y.
    + exfalso. apply Hz. by exists x.
Qed.

Lemma select_participants_add (s : Store) (e : string) (aid aid' : Z) :
  select_participants (add_participant s e aid) aid' =
  select_participants s aid' ++
  (if decide (aid = aid')
   then [Participant.mk (next_id (Participant.id <$> participant s)) e aid]
   else []).
Proof.
  unfold select_participants, add_participant. simpl.
  rewrite filter_app, filter_cons, filter_nil. simpl.
  by destruct (decide (aid = aid')).
Qed.

Lemma participant_count_add (s : Store) (e : string) (aid aid' : Z) :
  participant_count (add_participant s e aid) aid' =
  participant_count s aid' + (if decide (aid = aid') then 1 else 0).
Proof.
  unfold participant_count. rewrite select_participants_add, length_app.
  destruct (decide (aid = aid')); simpl; lia.
Qed.

Lemma emails_of_add (s : Store) (e : string) (aid aid' : Z) :
  emails_of (add_participant s e aid) aid' =
  emails_of s aid' ++ (if decide (aid = aid') then [e] else []).
Proof.
  unfold emails_of. rewrite select_participants_add, fmap_app.
  by destruct (decide (aid = aid')).
Qed.

Lemma length_filter_filter {A : Type} (P Q : A → Prop)
    {Pdec : ∀ x, Decision (P x)} {Qdec : ∀ x, Decision (Q x)} (l : list A) :
  (length (filter P (filter Q l)) ≤ length (filter P l))%nat.
Proof.
  induction l as [|x l IH]; [done|].
  rewrite !filter_cons.
  destruct (decide (Q x)), (decide (P x)); rewrite ?filter_cons; simpl;
    repeat case_decide; simpl; try done; lia.
Qed.

Lemma participant_count_delete (s : Store) (p : Participant.t) (aid : Z) :
  participant_count (delete_participant s p) aid ≤ participant_count s aid.
Proof.
  unfold participant_count, select_participants, delete_participant. simpl.
  apply inj_le, length_filter_filter.
Qed.

(** ** The schema's constraints hold after every operation *)

Lemma seed_initial_data_nonempty (s : Store) :
  activity s ≠ [] → seed_initial_data s = s.
Proof. unfold seed_initial_data. by destruct (activity s). Qed.

Lemma foreign_key_no_orphans (s : Store) :
  foreign_key s → activity s = [] → s = empty_store.
Proof.
  destruct s as [acts ps]. unfold foreign_key. simpl. intros Hfk ->.
  destruct ps as [|p ps]; [done|].
  apply Forall_cons in Hfk as [Hp _]. simpl in Hp. by apply elem_of_nil in Hp.
Qed.

Lemma seed_initial_data_cases (s : Store) :
  foreign_key s →
  seed_initial_data s = s ∨ (s = empty_store ∧ seed_initial_data s = seeded).
Proof.
  intros Hfk. destruct (decide (activity s = [])) as [He|Hne].
  - right. apply foreign_key_no_orphans in He as ->; done.
  - left. by apply seed_initial_data_nonempty.
Qed.

Lemma wf_store_add_participant (s : Store) (e : string) (act : Activity.t) :
  act ∈ activity s → wf_store s →
  wf_store (add_participant s e (Activity.id act)).
Proof.
  intros Hact (Ha & Hp & Hfk). unfold wf_store, activity_pk, participant_pk,
    foreign_key, add_participant in *. simpl. split_and!; [done| |].
  - rewrite fmap_app. simpl. apply NoDup_app. split_and!; [done| |].
    + intros i Hi Hin. apply list_elem_of_singleton in Hin as ->.
      by apply next_id_fresh in Hi.
    + apply NoDup_singleton.
  - apply Forall_app. split; [done|]. apply Forall_singleton. simpl.
    apply list_elem_of_fmap. by exists act.
Qed.

Lemma wf_store_delete_participant (s : Store) (p : Participant.t) :
  wf_store s → wf_store (delete_participant s p).
Proof.
  intros (Ha & Hp & Hfk). unfold wf_store, activity_pk, participant_pk,
    foreign_key, delete_participant in *. simpl. split_and!; [done| |].
  - eapply sublist_NoDup; [exact Hp|]. apply fmap_sublist, sublist_filter.
  - apply Forall_forall. intros q Hq. apply list_elem_of_filter in Hq as [_ Hq].
    by apply (proj1 (Forall_forall _ _) Hfk).
Qed.

Lemma wf_store_signup (s : Store) (n e : string) :
  wf_store s → wf_store (snd (signup_for_activity n e s)).
Proof.
  intros Hwf.
  destruct (signup_cases s n e) as [->|[->|[->|(act & Hact & _ & _ & ->)]]];
    simpl; [done..|].
  apply wf_store_add_participant; [|done].
  by apply first_activity_named_elem in Hact as [? _].
Qed.

Lemma wf_store_unregister (s : Store) (n e : string) :
  wf_store s → wf_store (snd (unregister_from_activity n e s)).
Proof.
  intros Hwf.
  destruct (unregister_cases s n e)
    as [->|[->|(act & p & l1 & l2 & _ & _ & _ & _ & ->)]]; simpl; [done..|].
  by apply wf_store_delete_participant.
Qed.

Lemma wf_store_seed (s : Store) :
  wf_store s → wf_store (seed_initial_data s).
Proof.
  intros Hwf. destruct (seed_initial_data_cases s) as [->|[_ ->]];
    [apply Hwf | done | compute_done].
Qed.

(** ** Capacity *)

Lemma capacity_ok_add_participant (s : Store) (e : string) (act : Activity.t) :
  act ∈ activity s → activity_pk s → capacity_ok s →
  participant_count s (Activity.id act) < Activity.max_participants act →
  capacity_ok (add_participant s e (Activity.id act)).
Proof.
  intros Hact Hpk Hcap Hroom. unfold capacity_ok in *.
  change (activity (add_participant s e (Activity.id act))) with (activity s).
  apply Forall_forall. intros a Ha.
  rewrite participant_count_add.
  pose proof (proj1 (Forall_forall _ _) Hcap a Ha) as Hle. simpl in Hle.
  destruct (decide (Activity.id act = Activity.id a)) as [Heq|_]; [|lia].
  assert (act = a) as <- by (by eapply (NoDup_fmap_eq Activity.id)).
  lia.
Qed.

Lemma capacity_ok_delete_participant (s : Store) (p : Participant.t) :
  capacity_ok s → capacity_ok (delete_participant s p).
Proof.
  unfold capacity_ok.
  change (activity (delete_participant s p)) with (activity s).
  intros Hcap. eapply Forall_impl; [exact Hcap|]. intros a Hle. simpl in *.
  pose proof (participant_count_delete s p (Activity.id a)). lia.
Qed.

Lemma capacity_ok_seed (s : Store) :
  foreign_key s → capacity_ok s → capacity_ok (seed_initial_data s).
Proof.
  intros Hfk Hcap.
  destruct (seed_initial_data_cases s Hfk) as [->|[_ ->]];
    [done | compute_done].
Qed.

Lemma capacity_ok_signup (s : Store) (n e : string) :
  activity_pk s → capacity_ok s →
  capacity_ok (snd (signup_for_activity n e s)).
Proof.
  intros Hpk Hcap.
  destruct (signup_cases s n e)
    as [->|[->|[->|(act & Hact & _ & Hroom & ->)]]]; simpl; [done..|].
  apply capacity_ok_add_participant; [|done..].
  by apply first_activity_named_elem in Hact as [? _].
Qed.

Lemma capacity_ok_unregister (s : Store) (n e : string) :
  capacity_ok s → capacity_ok (snd (unregister_from_activity n e s)).
Proof.
  intros Hcap.
  destruct (unregister_cases s n e)
    as [->|[->|(act & p & l1 & l2 & _ & _ & _ & _ & ->)]]; simpl; [done..|].
  by apply capacity_ok_delete_participant.
Qed.

Lemma signup_refused_at_capacity (s : Store) (n e : string) (act : Activity.t) :
  first_activity_named s n act →
  Activity.max_participants act ≤ participant_count s (Activity.id act) →
  ∃ d, fst (signup_for_activity n e s) = HTTPException 400 d.
Proof.
  intros Hact Hfull.
  destruct (decide (e ∈ emails_of s (Activity.id act))) as [He|He].
  - rewrite (signup_already s n e act); [by eexists | done..].
  - rewrite (signup_full s n e act); [by eexists | done..].
Qed.

(** C3: in a store that meets the schema's key constraints, the capacity
    invariant (no activity has more participant rows than its
    max_participants) is kept by seeding, by signup and by unregister; and a
    signup to an activity whose count has reached max_participants is
    answered with a 400. *)
Theorem capacity_preserved (s : Store) (n e : string) :
  wf_store s → capacity_ok s →
  capacity_ok (seed_initial_data s) ∧
  capacity_ok (snd (signup_for_activity n e s)) ∧
  capacity_ok (snd (unregister_from_activity n e s)) ∧
  (∀ act, first_activity_named s n act →
          Activity.max_participants act ≤ participant_count s (Activity.id act) →
          ∃ d, fst (signup_for_activity n e s) = HTTPException 400 d).
Proof.
  intros (Hapk & Hppk & Hfk) Hcap. split_and!.
  - by apply capacity_ok_seed.
  - by apply capacity_ok_signup.
  - by apply capacity_ok_unregister.
  - apply signup_refused_at_capacity.
Qed.

(** The seeded store meets the constraints and the invariant; a signup to
    the Math Club keeps it. *)
Lemma capacity_preserved_witness :
  wf_store seeded ∧ capacity_ok seeded ∧
  capacity_ok (snd (signup_for_activity "Math Club" "test@mergington.edu" seeded)).
Proof.
  assert (wf_store seeded) as Hwf by compute_done.
  assert (capacity_ok seeded) as Hcap by compute_done.
  split_and!; [done..|].
  exact (proj1 (proj2 (capacity_preserved
                         seeded "Math Club" "test@mergington.edu" Hwf Hcap))).
Defined.

(** ** One signup per student and activity *)

Lemma occurrences_absent (e : string) (l : list string) :
  e ∉ l → occurrences e l = 0%nat.
Proof.
  unfold occurrences. induction l as [|x l IH]; [done|].
  rewrite not_elem_of_cons. intros [Hx Hl]. rewrite filter_cons.
  destruct (decide (x = e)); [congruence | auto].
Qed.

Lemma occurrences_snoc (e : string) (l : list string) :
  occurrences e (l ++ [e]) = S (occurrences e l).
Proof.
  unfold occurrences. rewrite filter_app, length_app, filter_cons.
  destruct (decide (e = e)); [simpl; lia | done].
Qed.

Lemma signup_key_elem (s : Store) (aid : Z) (e : string) :
  (aid, e) ∈ (signup_key <$> participant s) ↔ e ∈ emails_of s aid.
Proof.
  rewrite elem_of_emails_of, list_elem_of_fmap. unfold signup_key. split.
  - intros (p & [= -> ->] & Hp). eauto.
  - intros (p & Hp & <- & <-). eauto.
Qed.

Lemma unique_signup_add_participant (s : Store) (e : string) (aid : Z) :
  e ∉ emails_of s aid → unique_signup s →
  unique_signup (add_participant s e aid).
Proof.
  intros He Hu. unfold unique_signup, add_participant in *. simpl.
  rewrite fmap_app. simpl. apply NoDup_app. split_and!; [done| |].
  - intros k Hk Hin. apply list_elem_of_singleton in Hin as ->.
    unfold signup_key at 1 in Hk. simpl in Hk. by apply signup_key_elem in Hk.
  - apply NoDup_singleton.
Qed.

Lemma unique_signup_delete_participant (s : Store) (p : Participant.t) :
  unique_signup s → unique_signup (delete_participant s p).
Proof.
  unfold unique_signup, delete_participant. simpl. intros Hu.
  eapply sublist_NoDup; [exact Hu|]. apply fmap_sublist, sublist_filter.
Qed.

Lemma unique_signup_seed (s : Store) :
  foreign_key s → unique_signup s → unique_signup (seed_initial_data s).
Proof.
  intros Hfk Hu.
  destruct (seed_initial_data_cases s Hfk) as [->|[_ ->]];
    [done | compute_done].
Qed.

Lemma unique_signup_signup (s : Store) (n e : string) :
  unique_signup s → unique_signup (snd (signup_for_activity n e s)).
Proof.
  intros Hu.
  destruct (signup_cases s n e)
    as [->|[->|[->|(act & Hact & He & _ & ->)]]]; simpl; [done..|].
  by apply unique_signup_add_participant.
Qed.

Lemma unique_signup_unregister (s : Store) (n e : string) :
  unique_signup s → unique_signup (snd (unregister_from_activity n e s)).
Proof.
  intros Hu.
  destruct (unregister_cases s n e)
    as [->|[->|(act & p & l1 & l2 & _ & _ & _ & _ & ->)]]; simpl; [done..|].
  by apply unique_signup_delete_participant.
Qed.

Lemma signup_registers_once (s : Store) (n e m : string) (act : Activity.t) :
  first_activity_named s n act →
  fst (signup_for_activity n e s) = Message m →
  occurrences e (emails_of (snd (signup_for_activity n e s))
                           (Activity.id act)) = 1%nat.
Proof.
  intros Hact.
  destruct (signup_cases s n e)
    as [->|[->|[->|(act' & Hact' & He & _ & ->)]]]; simpl; [done..|].
  intros _.
  apply select_activity_by_name_Some in Hact, Hact'.
  assert (act' = act) as -> by congruence.
  rewrite emails_of_add. destruct (decide _) as [_|]; [|done].
  by rewrite occurrences_snoc, occurrences_absent.
Qed.

(** C4: in a store without orphan participant rows, uniqueness of the
    (activity_id, email) pairs is kept by seeding, by signup and by
    unregister; and after a successful signup the email occurs exactly once
    among the participants of the activity the name resolved to. *)
Theorem unique_signup_preserved (s : Store) (n e : string) :
  foreign_key s → unique_signup s →
  unique_signup (seed_initial_data s) ∧
  unique_signup (snd (signup_for_activity n e s)) ∧
  unique_signup (snd (unregister_from_activity n e s)) ∧
  (∀ act m,
     first_activity_named s n act →
     fst (signup_for_activity n e s) = Message m →
     occurrences e (emails_of (snd (signup_for_activity n e s))
                              (Activity.id act)) = 1%nat).
Proof.
  intros Hfk Hu. split_and!.
  - by apply unique_signup_seed.
  - by apply unique_signup_signup.
  - by apply unique_signup_unregister.
  - intros act m. apply signup_registers_once.
Qed.

(** The seeded store has no orphan rows and no double signup; a signup to
    the Math Club keeps it so. *)
Lemma unique_signup_preserved_witness :
  foreign_key seeded ∧ unique_signup seeded ∧
  unique_signup (snd (signup_for_activity "Math Club" "test@mergington.edu" seeded)).
Proof.
  assert (foreign_key seeded) as Hfk by compute_done.
  assert (unique_signup seeded) as Hu by compute_done.
  split_and!; [done..|].
  exact (proj1 (proj2 (unique_signup_preserved
                         seeded "Math Club" "test@mergington.edu" Hfk Hu))).
Defined.

(** ** Reachable stores *)

(** X7: the key constraints and both invariants hold in every store
    reached from an empty database by startup seeding, signups and
    unregistrations, so the hypotheses of the statements above cost nothing
    there. *)
Lemma reachable_invariants (s : Store) :
  reachable s → wf_store s ∧ capacity_ok s ∧ unique_signup s.
Proof.
  induction 1 as [|s _ (Hwf & Hcap & Hu)|s n e _ (Hwf & Hcap & Hu)
                  |s n e _ (Hwf & Hcap & Hu)].
  - split_and!; compute_done.
  - pose proof Hwf as (_ & _ & Hfk). split_and!.
    + by apply wf_store_seed.
    + by apply capacity_ok_seed.
    + by apply unique_signup_seed.
  - pose proof Hwf as (Hapk & _ & _). split_and!.
    + by apply wf_store_signup.
    + by apply capacity_ok_signup.
    + by apply unique_signup_signup.
  - split_and!.
    + by apply wf_store_unregister.
    + by apply capacity_ok_unregister.
    + by apply unique_signup_unregister.
Qed.

Lemma NoDup_fmap_middle {A B : Type} (f : A → B) (l1 l2 : list A) (x : A) :
  NoDup (f <$> (l1 ++ x :: l2)) → f x ∉ (f <$> (l1 ++ l2)).
Proof.
  rewrite !fmap_app, fmap_cons. intros Hnd Hin.
  apply NoDup_app in Hnd as (_ & Hdisj & Hnd).
  apply NoDup_cons in Hnd as [Hx _].
  apply elem_of_app in Hin as [Hin|Hin]; [|done].
  apply (Hdisj _ Hin). left.
Qed.

(** X6: unregistering a second time, in a store with distinct participant
    keys and no double signup: once the row is gone the same request is
    answered with 400, not 404, and the store stays as it is. *)
Lemma unregister_again (s s1 : Store) (n e m : string) :
  participant_pk s → unique_signup s →
  unregister_from_activity n e s = (Message m, s1) →
  unregister_from_activity n e s1 =
    (HTTPException 400 "Student is not signed up for this activity", s1).
Proof.
  intros Hpk Hu.
  destruct (unregister_cases s n e)
    as [->|[->|(act & p & l1 & l2 & Hact & Hl & Ha & Hm & ->)]]; [done..|].
  intros [= _ <-].
  apply (unregister_not_signed_up _ n e act).
  { by apply (first_activity_named_same_table s). }
  unfold participant_pk, unique_signup in *. rewrite Hl in Hpk, Hu.
  rewrite <- signup_key_elem. unfold delete_participant. simpl.
  rewrite Hl, filter_key_unique by done.
  replace (Activity.id act, e) with (signup_key p)
    by (unfold signup_key; congruence).
  by apply NoDup_fmap_middle.
Qed.

(** ** Failed requests *)

(** C5: a signup or an unregister that raises an HTTPException returns the
    store it was given; and a signup repeated after a successful one raises
    400 "Student is already signed up" and returns the store unchanged, so
    every participant count is what it was after the first call. *)
Theorem failure_leaves_store (s : Store) (n e : string) :
  (∀ code d, fst (signup_for_activity n e s) = HTTPException code d →
             snd (signup_for_activity n e s) = s) ∧
  (∀ code d, fst (unregister_from_activity n e s) = HTTPException code d →
             snd (unregister_from_activity n e s) = s) ∧
  (∀ m s1, signup_for_activity n e s = (Message m, s1) →
           signup_for_activity n e s1 =
             (HTTPException 400 "Student is already signed up", s1) ∧
           ∀ aid, participant_count (snd (signup_for_activity n e s1)) aid =
                  participant_count s1 aid).
Proof.
  split_and!.
  - intros code d.
    by destruct (signup_cases s n e) as [->|[->|[->|(act & _ & _ & _ & ->)]]].
  - intros code d.
    by destruct (unregister_cases s n e)
      as [->|[->|(act & p & l1 & l2 & _ & _ & _ & _ & ->)]].
  - intros m s1.
    destruct (signup_cases s n e)
      as [->|[->|[->|(act & Hact & He & _ & ->)]]]; [done..|].
    intros [= _ <-].
    assert (signup_for_activity n e (add_participant s e (Activity.id act)) =
            (HTTPException 400 "Student is already signed up",
             add_participant s e (Activity.id act))) as Hagain.
    { apply (signup_already _ n e act).
      - by apply (first_activity_named_same_table s).
      - rewrite emails_of_add. destruct (decide _) as [_|]; [|done].
        apply elem_of_app. right. left. }
    by rewrite Hagain.
Qed.

(** ** Seeding *)

Lemma seed_initial_data_activities (s : Store) :
  activity s = [] → activity (seed_initial_data s) = activity seeded.
Proof. destruct s as [acts ps]. simpl. by intros ->. Qed.

(** C6: seeding a store that has an activity row changes nothing; seeding
    a store without activity rows inserts the nine activities of the fixed
    dataset, and on the empty store the result holds exactly that dataset
    (each activity with its listed participants); seeding twice gives the
    same store as seeding once, and startup run twice on an empty database
    leaves no two activities with the same name. *)
Theorem seed_initial_data_idempotent (s : Store) :
  (activity s ≠ [] → seed_initial_data s = s) ∧
  (activity s = [] →
   activity (seed_initial_data s) = activity seeded ∧
   length (activity (seed_initial_data s)) = 9%nat) ∧
  dataset_of (seed_initial_data empty_store) = initial ∧
  length initial = 9%nat ∧
  seed_initial_data (seed_initial_data s) = seed_initial_data s ∧
  NoDup (Activity.name <$>
         activity (seed_initial_data (seed_initial_data empty_store))).
Proof.
  split_and!; last compute_done.
  - apply seed_initial_data_nonempty.
  - intros He. by rewrite seed_initial_data_activities.
  - by vm_compute.
  - done.
  - destruct (decide (activity s = [])) as [He|Hne].
    + apply seed_initial_data_nonempty.
      by rewrite seed_initial_data_activities.
    + rewrite (seed_initial_data_nonempty s Hne).
      by apply seed_initial_data_nonempty.
Qed.

(** ** Listing *)

Lemma fold_insert_lookup {V : Type} (key : Activity.t → string)
    (val : Activity.t → V) (l : list Activity.t) (n : string) :
  foldl (λ result act, <[key act := val act]> result) (∅ : gmap string V) l
    !! n
  = val <$> last (filter (λ a, key a = n) l).
Proof.
  induction l as [|x l IH] using rev_ind; [done|].
  rewrite foldl_app, filter_app, filter_cons, filter_nil. simpl.
  destruct (decide (key x = n)) as [Hk|Hk].
  - rewrite last_snoc, Hk. simpl. apply lookup_insert_eq.
  - rewrite app_nil_r, lookup_insert_ne; done.
Qed.

Lemma get_activities_lookup (s : Store) (n : string) :
  get_activities s !! n =
  activity_info s <$> last (filter (λ a, Activity.name a = n) (activity s)).
Proof. apply fold_insert_lookup. Qed.

Lemma last_elem_of {A : Type} (l : list A) (x : A) : last l = Some x → x ∈ l.
Proof.
  induction l as [|y l IH] using rev_ind; [done|].
  rewrite last_snoc. intros [= ->]. apply elem_of_app. right. left.
Qed.

(** C7: [get_activities] is a total function, it raises nothing; for every
    store it returns a mapping in which every
    entry is keyed by the name of an activity row and carries that row's
    description, schedule and max_participants and the emails of the
    participant rows referencing it; every activity's name is a key; and
    with no activity rows the mapping is empty. *)
Theorem get_activities_content (s : Store) :
  (∀ n info, get_activities s !! n = Some info →
     ∃ act, act ∈ activity s ∧ Activity.name act = n ∧
            description info = Activity.description act ∧
            schedule info = Activity.schedule act ∧
            max_participants info = Activity.max_participants act ∧
            participants info = emails_of s (Activity.id act)) ∧
  (∀ act, act ∈ activity s →
          is_Some (get_activities s !! Activity.name act)) ∧
  (activity s = [] → get_activities s = ∅).
Proof.
  split_and!.
  - intros n info. rewrite get_activities_lookup.
    destruct (last _) as [act|] eqn:El; [|done]. intros [= <-].
    apply last_elem_of, list_elem_of_filter in El as [Hn Hin].
    exists act. by split_and!.
  - intros act Hin. rewrite get_activities_lookup.
    destruct (last _) as [a|] eqn:El; [by eexists|].
    apply last_None in El.
    assert (act ∈ filter (λ a, Activity.name a = Activity.name act)
                         (activity s)) as Hf
      by (by apply list_elem_of_filter).
    rewrite El in Hf. by apply elem_of_nil in Hf.
  - unfold get_activities. by intros ->.
Qed.

(** ** Frame *)

(** C8: in every store whose participant rows have distinct primary keys,
    signup and unregister leave the activity table as it is, leave alone the
    participant rows of every activity other than the one the name resolves
    to, and change the participant table by nothing but the one row
    appended (signup) or the one row removed (unregister). *)
Theorem handlers_frame (s : Store) (n e : string) :
  participant_pk s → frame_contract s n e.
Proof.
  intros Hpk. unfold frame_contract. cbv zeta.
  assert (snd (signup_for_activity n e s) = s ∨
          ∃ act, first_activity_named s n act ∧
                 snd (signup_for_activity n e s) =
                   add_participant s e (Activity.id act)) as Hs1.
  { destruct (signup_cases s n e)
      as [->|[->|[->|(act & Hact & _ & _ & ->)]]]; eauto. }
  assert (snd (unregister_from_activity n e s) = s ∨
          ∃ act p before after,
            first_activity_named s n act ∧
            participant s = before ++ p :: after ∧
            Participant.activity_id p = Activity.id act ∧
            Participant.email p = e ∧
            snd (unregister_from_activity n e s) =
              mkStore (activity s) (before ++ after)) as Hs2.
  { destruct (unregister_cases s n e)
      as [->|[->|(act & p & l1 & l2 & Hact & Hl & Ha & Hm & ->)]]; eauto.
    right. exists act, p, l1, l2. split_and!; [done..|].
    unfold delete_participant. simpl. f_equal. rewrite Hl.
    apply filter_key_unique. unfold participant_pk in Hpk.
    by rewrite Hl in Hpk. }
  split_and!.
  - by destruct Hs1 as [->|(act & _ & ->)].
  - by destruct Hs2 as [->|(act & p & l1 & l2 & _ & _ & _ & _ & ->)].
  - destruct Hs1 as [->|(act & Hact & ->)]; [by left|]. right. by exists act.
  - destruct Hs2 as [->|(act & p & l1 & l2 & Hact & Hl & Ha & Hm & ->)];
      [by left|].
    right. by exists act, p, l1, l2.
  - intros aid Hother. split.
    + destruct Hs1 as [->|(act & Hact & ->)]; [done|].
      rewrite select_participants_add.
      destruct (decide (Activity.id act = aid)) as [Heq|_].
      * by destruct (Hother act Hact).
      * by rewrite app_nil_r.
    + destruct Hs2 as [->|(act & p & l1 & l2 & Hact & Hl & Ha & Hm & ->)];
        [done|].
      unfold select_participants. simpl. rewrite Hl, !filter_app, filter_cons.
      destruct (decide (Participant.activity_id p = aid)) as [Heq|_]; [|done].
      destruct (Hother act Hact). congruence.
Qed.

(** The frame of a request for michael and the Chess Club on the seeded
    store. *)
Lemma handlers_frame_witness :
  participant_pk seeded ∧
  frame_contract seeded "Chess Club" "michael@mergington.edu".
Proof.
  assert (participant_pk seeded) as Hpk by compute_done.
  split; [done|].
  exact (handlers_frame seeded "Chess Club" "michael@mergington.edu" Hpk).
Defined.

(** ** The example of the specification *)

(** C9: on the freshly seeded store Chess Club lists two participants;
    signing up test@mergington.edu succeeds and the list has three entries;
    the same call again raises 400 "Student is already signed up". *)
Theorem chess_club_example :
  let r1 := signup_for_activity "Chess Club" "test@mergington.edu" seeded in
  let r2 := signup_for_activity "Chess Club" "test@mergington.edu" (snd r1) in
  participants <$> get_activities seeded !! "Chess Club" =
    Some ["michael@mergington.edu"; "daniel@mergington.edu"] ∧
  fst r1 = Message "Signed up test@mergington.edu for Chess Club" ∧
  participants <$> get_activities (snd r1) !! "Chess Club" =
    Some ["michael@mergington.edu"; "daniel@mergington.edu";
          "test@mergington.edu"] ∧
  r2 = (HTTPException 400 "Student is already signed up", snd r1).
Proof. cbv zeta. split_and!; by vm_compute. Qed.

(** ** Activities sharing a name *)

(** C10: activity names need not be unique.  In every store (with distinct
    participant keys) where a name is carried by a first row and by a last
    one further down, signup and unregister resolve the name to the first
    row and check and modify that row's participants only (the one row
    appended references the first row, the one row removed referenced it),
    while the listing has a single entry for the name, carrying the
    description, schedule, capacity and participant emails of the last
    row. *)
Theorem duplicate_names (s : Store) (n e : string) (first latest : Activity.t)
    (before between after : list Activity.t) :
  participant_pk s →
  activity s = before ++ first :: between ++ latest :: after →
  Activity.name first = n →
  Activity.name latest = n →
  (∀ a, a ∈ before → Activity.name a ≠ n) →
  (∀ a, a ∈ after → Activity.name a ≠ n) →
  duplicate_name_contract s n e first latest.
Proof.
  intros Hpk Hl Hfirst Hlatest Hbefore Hafter.
  assert (first_activity_named s n first) as Hact.
  { by exists before, (between ++ latest :: after). }
  split_and!.
  - by apply select_activity_by_name_Some.
  - destruct (decide (e ∈ _)) as [He|He]; [by eapply signup_already|].
    destruct (decide (_ ≤ _)) as [Hc|Hc]; [by eapply signup_full|].
    rewrite (signup_ok s n e first); [done..|lia].
  - destruct (decide (e ∈ emails_of s (Activity.id first))) as [He|He].
    + right.
      destruct (unregister_ok s n e first Hact He)
        as (p & l1 & l2 & Hp & Ha & Hm & _ & Hrun).
      exists p, l1, l2. split_and!; [done..|]. rewrite Hrun.
      unfold delete_participant. f_equal. f_equal. rewrite Hp.
      apply filter_key_unique. unfold participant_pk in Hpk.
      by rewrite Hp in Hpk.
    + left. split; [done|]. by eapply unregister_not_signed_up.
  - exists (activity_info s latest). rewrite get_activities_lookup, Hl.
    replace (before ++ first :: between ++ latest :: after)
      with ((before ++ first :: between) ++ [latest] ++ after)
      by (by rewrite <- !app_assoc).
    assert (filter (λ a, Activity.name a = n) [latest] = [latest]) as Hkeep.
    { rewrite filter_cons, filter_nil.
      by destruct (decide (Activity.name latest = n)). }
    rewrite (filter_app _ (before ++ first :: between)).
    rewrite (filter_app _ [latest]), Hkeep, (filter_no_match _ after Hafter).
    rewrite app_nil_r, last_snoc. by split_and!.
Qed.

(** Two Chess Clubs: requests reach the row with key 1, the listing shows
    the row with key 2. *)
Lemma duplicate_names_witness :
  participant_pk two_chess_clubs ∧
  duplicate_name_contract two_chess_clubs "Chess Club" "test@mergington.edu"
    (Activity.mk 1 "Chess Club" "Learn strategies" "Fridays" 12)
    (Activity.mk 2 "Chess Club" "Advanced group" "Mondays" 1).
Proof.
  assert (participant_pk two_chess_clubs) as Hpk by compute_done.
  split; [done|].
  apply (duplicate_names two_chess_clubs "Chess Club" "test@mergington.edu"
           _ _ [] [] [] Hpk); [reflexivity..| |];
    intros a Ha; by apply elem_of_nil in Ha.
Defined.

(** * Further properties of the handlers *)

(** ** The tables stay well formed *)

(** X1: startup seeding, signup and unregister keep the constraints the
    table declarations state: primary keys stay distinct in both tables
    and every participant row references an existing activity. *)
Theorem schema_constraints_preserved (s : Store) (n e : string) :
  wf_store s →
  wf_store (seed_initial_data s) ∧
  wf_store (snd (signup_for_activity n e s)) ∧
  wf_store (snd (unregister_from_activity n e s)).
Proof.
  intros Hwf. split_and!.
  - by apply wf_store_seed.
  - by apply wf_store_signup.
  - by apply wf_store_unregister.
Qed.

(** The seeded store is well formed, and stays so after a signup. *)
Lemma schema_constraints_preserved_witness :
  wf_store seeded ∧
  wf_store (snd (signup_for_activity "Art Club" "test@mergington.edu" seeded)).
Proof.
  assert (wf_store seeded) as Hwf by compute_done.
  split; [done|].
  exact (proj1 (proj2 (schema_constraints_preserved
                         seeded "Art Club" "test@mergington.edu" Hwf))).
Defined.

(** ** Status codes *)

Lemma resolution_exclusive (s : Store) (n : string) (act : Activity.t) :
  no_activity_named s n → first_activity_named s n act → False.
Proof.
  intros Hno Hact. apply select_activity_by_name_None in Hno.
  apply select_activity_by_name_Some in Hact. congruence.
Qed.

Lemma signup_status (s : Store) (n e : string) (act : Activity.t) :
  first_activity_named s n act →
  (∃ d, signup_for_activity n e s = (HTTPException 400 d, s)) ∨
  (∃ m s1, signup_for_activity n e s = (Message m, s1)).
Proof.
  intros Hact.
  destruct (decide (e ∈ emails_of s (Activity.id act))) as [He|He].
  { left. eexists. by eapply signup_already. }
  destruct (decide (participant_count s (Activity.id act)
                    < Activity.max_participants act)) as [Hc|Hc].
  - right. do 2 eexists. by eapply signup_ok.
  - left. eexists. eapply signup_full; [done..|lia].
Qed.

Lemma unregister_status (s : Store) (n e : string) (act : Activity.t) :
  first_activity_named s n act →
  (∃ d, unregister_from_activity n e s = (HTTPException 400 d, s)) ∨
  (∃ m s1, unregister_from_activity n e s = (Message m, s1)).
Proof.
  intros Hact.
  destruct (decide (e ∈ emails_of s (Activity.id act))) as [He|He].
  - right. destruct (unregister_ok s n e act Hact He)
      as (p & _ & _ & _ & _ & _ & _ & ->). by do 2 eexists.
  - left. eexists. by eapply unregister_not_signed_up.
Qed.

(** X2: both writing handlers raise nothing but 404 and 400, and they
    raise 404 exactly when no activity row has the requested name: an
    unknown student, a student already signed up and a full activity are
    never reported as 404. *)
Theorem handlers_status_codes (s : Store) (n e : string) :
  (no_activity_named s n ↔
   ∃ d, fst (signup_for_activity n e s) = HTTPException 404 d) ∧
  (no_activity_named s n ↔
   ∃ d, fst (unregister_from_activity n e s) = HTTPException 404 d) ∧
  (∀ code d, fst (signup_for_activity n e s) = HTTPException code d →
             code = 404 ∨ code = 400) ∧
  (∀ code d, fst (unregister_from_activity n e s) = HTTPException code d →
             code = 404 ∨ code = 400).
Proof.
  split_and!.
  - split.
    + intros Hno. rewrite signup_not_found by done. by eexists.
    + intros [d Hd]. destruct (activity_resolution s n) as [Hno|[act Hact]];
        [done|].
      destruct (signup_status s n e act Hact) as [[d' H]|(m & s1 & H)];
        rewrite H in Hd; simpl in Hd; congruence.
  - split.
    + intros Hno. rewrite unregister_not_found by done. by eexists.
    + intros [d Hd]. destruct (activity_resolution s n) as [Hno|[act Hact]];
        [done|].
      destruct (unregister_status s n e act Hact) as [[d' H]|(m & s1 & H)];
        rewrite H in Hd; simpl in Hd; congruence.
  - intros code d.
    destruct (signup_cases s n e)
      as [->|[->|[->|(act & _ & _ & _ & ->)]]]; simpl; intros [= <- _]; auto.
  - intros code d.
    destruct (unregister_cases s n e)
      as [->|[->|(act & p & l1 & l2 & _ & _ & _ & _ & ->)]]; simpl;
      intros [= <- _]; auto.
Qed.

(** ** Signup and unregister undo each other *)

Lemma store_eta (s : Store) : mkStore (activity s) (participant s) = s.
Proof. by destruct s. Qed.

Lemma delete_added_participant (s : Store) (e : string) (aid : Z) :
  delete_participant (add_participant s e aid)
    (Participant.mk (next_id (Participant.id <$> participant s)) e aid) = s.
Proof.
  unfold delete_participant, add_participant. simpl.
  rewrite filter_app, filter_cons, filter_nil. simpl.
  destruct (decide (next_id (Participant.id <$> participant s)
                    ≠ next_id (Participant.id <$> participant s)));
    [done|].
  rewrite app_nil_r, (filter_key_absent Participant.id).
  - apply store_eta.
  - apply next_id_fresh.
Qed.

Lemma select_added_participant (s : Store) (e : string) (aid : Z) :
  e ∉ emails_of s aid →
  select_participant (add_participant s e aid) aid e =
  Some (Participant.mk (next_id (Participant.id <$> participant s)) e aid).
Proof.
  intros He. unfold select_participant, add_participant. simpl.
  rewrite filter_app, filter_no_match.
  - rewrite filter_cons. simpl.
    by destruct (decide (aid = aid ∧ e = e)) as [_|[]].
  - intros p Hp [Ha Hm]. apply He, elem_of_emails_of. eauto.
Qed.

(** X3: unregistering right after a successful signup, with the same name
    and email, succeeds and gives back the very store the signup started
    from. *)
Theorem signup_then_unregister (s s1 : Store) (n e m : string) :
  signup_for_activity n e s = (Message m, s1) →
  unregister_from_activity n e s1 =
    (Message ("Unregistered " +:+ e +:+ " from " +:+ n), s).
Proof.
  destruct (signup_cases s n e)
    as [->|[->|[->|(act & Hact & He & _ & ->)]]]; [done..|].
  intros [= _ <-].
  assert (select_activity_by_name
            (add_participant s e (Activity.id act)) n = Some act) as Hsel.
  { apply select_activity_by_name_Some.
    by apply (first_activity_named_same_table s). }
  unfold unregister_from_activity.
  rewrite Hsel, select_added_participant by done.
  by rewrite delete_added_participant.
Qed.

(** On the seeded store: test@mergington.edu joins the Chess Club and
    leaves again. *)
Lemma signup_then_unregister_witness :
  signup_for_activity "Chess Club" "test@mergington.edu" seeded =
    (Message "Signed up test@mergington.edu for Chess Club",
     add_participant seeded "test@mergington.edu" 1) ∧
  unregister_from_activity "Chess Club" "test@mergington.edu"
    (add_participant seeded "test@mergington.edu" 1) =
    (Message "Unregistered test@mergington.edu from Chess Club", seeded).
Proof.
  assert (signup_for_activity "Chess Club" "test@mergington.edu" seeded =
          (Message "Signed up test@mergington.edu for Chess Club",
           add_participant seeded "test@mergington.edu" 1)) as Hrun
    by (by vm_compute).
  split; [done|].
  exact (signup_then_unregister seeded _ "Chess Club" "test@mergington.edu"
           _ Hrun).
Defined.

(** ** After an unregistration *)

Lemma unregister_success_shape (s s1 : Store) (n e m : string) :
  participant_pk s →
  unregister_from_activity n e s = (Message m, s1) →
  ∃ act p before after,
    first_activity_named s n act ∧
    participant s = before ++ p :: after ∧
    Participant.activity_id p = Activity.id act ∧
    Participant.email p = e ∧
    s1 = mkStore (activity s) (before ++ after).
Proof.
  intros Hpk.
  destruct (unregister_cases s n e)
    as [->|[->|(act & p & l1 & l2 & Hact & Hl & Ha & Hm & ->)]]; [done..|].
  intros [= _ <-]. exists act, p, l1, l2. split_and!; [done..|].
  unfold delete_participant. f_equal. rewrite Hl.
  apply filter_key_unique. unfold participant_pk in Hpk. by rewrite Hl in Hpk.
Qed.

Lemma email_gone_after_delete (acts : list Activity.t)
    (before after : list Participant.t) (p : Participant.t) :
  NoDup (signup_key <$> (before ++ p :: after)) →
  Participant.email p ∉
    emails_of (mkStore acts (before ++ after)) (Participant.activity_id p).
Proof.
  intros Hu He. apply signup_key_elem in He. simpl in He.
  by apply (NoDup_fmap_middle signup_key before after p).
Qed.

Lemma filter_ne_absent (e : string) (l : list string) :
  e ∉ l → filter (λ x, x ≠ e) l = l.
Proof.
  induction l as [|x l IH]; [done|]. rewrite not_elem_of_cons.
  intros [Hx Hl]. rewrite filter_cons.
  destruct (decide (x ≠ e)) as [_|Hn]; [by rewrite IH|].
  exfalso. apply Hn. congruence.
Qed.

Lemma emails_of_after_delete (acts : list Activity.t)
    (before after : list Participant.t) (p : Participant.t) :
  NoDup (signup_key <$> (before ++ p :: after)) →
  emails_of (mkStore acts (before ++ after)) (Participant.activity_id p) =
  filter (λ x, x ≠ Participant.email p)
         (emails_of (mkStore acts (before ++ p :: after))
                    (Participant.activity_id p)).
Proof.
  intros Hu.
  pose proof (email_gone_after_delete acts before after p Hu) as Hgone.
  revert Hgone. unfold emails_of, select_participants. simpl.
  rewrite !filter_app, filter_cons.
  destruct (decide (Participant.activity_id p = Participant.activity_id p));
    [|done].
  rewrite !fmap_app, fmap_cons, not_elem_of_app. intros [H1 H2].
  rewrite filter_app, filter_cons.
  destruct (decide (Participant.email p ≠ Participant.email p)); [done|].
  by rewrite !filter_ne_absent.
Qed.

(** X4: in a store with distinct participant keys and no double signup, a
    successful unregister removes the email from the list of the activity
    the name resolves to and leaves the other emails of that list as they
    were, in the same order. *)
Theorem emails_after_unregister (s s1 : Store) (n e m : string)
    (act : Activity.t) :
  participant_pk s → unique_signup s →
  unregister_from_activity n e s = (Message m, s1) →
  first_activity_named s n act →
  emails_of s1 (Activity.id act) =
  filter (λ x, x ≠ e) (emails_of s (Activity.id act)).
Proof.
  intros Hpk Hu Hrun Hact.
  destruct (unregister_success_shape s s1 n e m Hpk Hrun)
    as (act' & p & l1 & l2 & Hact' & Hl & Ha & Hm & ->).
  apply select_activity_by_name_Some in Hact, Hact'.
  assert (act' = act) as -> by congruence.
  unfold unique_signup in Hu. rewrite Hl in Hu.
  pose proof (emails_of_after_delete (activity s) l1 l2 p Hu) as Heq.
  rewrite Ha, Hm, <- Hl, store_eta in Heq. exact Heq.
Qed.

(** On the seeded store daniel leaves the Chess Club; michael stays. *)
Lemma emails_after_unregister_witness :
  emails_of (snd (unregister_from_activity
                    "Chess Club" "daniel@mergington.edu" seeded)) 1 =
  filter (λ x, x ≠ "daniel@mergington.edu") (emails_of seeded 1).
Proof.
  assert (participant_pk seeded) as Hpk by compute_done.
  assert (unique_signup seeded) as Hu by compute_done.
  assert (first_activity_named seeded "Chess Club"
            (Activity.mk 1 "Chess Club"
               "Learn strategies and compete in chess tournaments"
               "Fridays, 3:30 PM - 5:00 PM" 12)) as Hact
    by (by apply select_activity_by_name_Some).
  exact (emails_after_unregister seeded _ "Chess Club" "daniel@mergington.edu"
           _ _ Hpk Hu (surjective_pairing _) Hact).
Defined.

(** X5: in a store with distinct participant keys, no double signup and
    no activity over capacity, a student who has just been unregistered
    from an activity can sign up for it again: the unregistration freed a
    place. *)
Theorem unregister_frees_place (s s1 : Store) (n e m : string) :
  participant_pk s → unique_signup s → capacity_ok s →
  unregister_from_activity n e s = (Message m, s1) →
  ∃ s2, signup_for_activity n e s1 =
          (Message ("Signed up " +:+ e +:+ " for " +:+ n), s2).
Proof.
  intros Hpk Hu Hcap Hrun.
  destruct (unregister_success_shape s s1 n e m Hpk Hrun)
    as (act & p & l1 & l2 & Hact & Hl & Ha & Hm & ->).
  eexists. apply (signup_ok _ n e act).
  - by apply (first_activity_named_same_table s).
  - unfold unique_signup in Hu. rewrite Hl in Hu.
    pose proof (email_gone_after_delete (activity s) l1 l2 p Hu) as Hgone.
    by rewrite Ha, Hm in Hgone.
  - apply first_activity_named_elem in Hact as [Hin _].
    pose proof (proj1 (Forall_forall _ _) Hcap act Hin) as Hle. simpl in Hle.
    revert Hle. unfold participant_count, select_participants. simpl.
    rewrite Hl, !filter_app, filter_cons.
    destruct (decide (Participant.activity_id p = Activity.id act)); [|done].
    rewrite !length_app. simpl. lia.
Qed.

(** On the seeded store daniel leaves the Chess Club and joins again. *)
Lemma unregister_frees_place_witness :
  ∃ s2, signup_for_activity "Chess Club" "daniel@mergington.edu"
          (snd (unregister_from_activity
                  "Chess Club" "daniel@mergington.edu" seeded)) =
        (Message "Signed up daniel@mergington.edu for Chess Club", s2).
Proof.
  assert (participant_pk seeded) as Hpk by compute_done.
  assert (unique_signup seeded) as Hu by compute_done.
  assert (capacity_ok seeded) as Hcap by compute_done.
  exact (unregister_frees_place seeded _ "Chess Club" "daniel@mergington.edu"
           _ Hpk Hu Hcap (surjective_pairing _)).
Defined.

(** On the seeded store daniel leaves the Chess Club; asking again gives
    400. *)
Lemma unregister_again_witness :
  unregister_from_activity "Chess Club" "daniel@mergington.edu"
    (snd (unregister_from_activity
            "Chess Club" "daniel@mergington.edu" seeded)) =
  (HTTPException 400 "Student is not signed up for this activity",
   snd (unregister_from_activity "Chess Club" "daniel@mergington.edu" seeded)).
Proof.
  assert (participant_pk seeded) as Hpk by compute_done.
  assert (unique_signup seeded) as Hu by compute_done.
  exact (unregister_again seeded _ "Chess Club" "daniel@mergington.edu"
           _ Hpk Hu (surjective_pairing _)).
Defined.

(** The store after startup and one signup is reachable. *)
Lemma reachable_invariants_witness :
  let s := snd (signup_for_activity "Gym Class" "test@mergington.edu" seeded) in
  reachable s ∧ wf_store s ∧ capacity_ok s ∧ unique_signup s.
Proof.
  cbv zeta.
  assert (reachable (snd (signup_for_activity
                            "Gym Class" "test@mergington.edu" seeded))) as Hr.
  { apply reachable_signup, reachable_seed, reachable_empty. }
  split; [done|].
  exact (reachable_invariants _ Hr).
Defined.

(** ** The activity table of a reachable store *)

Lemma signup_keeps_activities (s : Store) (n e : string) :
  activity (snd (signup_for_activity n e s)) = activity s.
Proof.
  by destruct (signup_cases s n e) as [->|[->|[->|(act & _ & _ & _ & ->)]]].
Qed.

Lemma unregister_keeps_activities (s : Store) (n e : string) :
  activity (snd (unregister_from_activity n e s)) = activity s.
Proof.
  by destruct (unregister_cases s n e)
    as [->|[->|(act & p & l1 & l2 & _ & _ & _ & _ & ->)]].
Qed.

(** X8: in every store reached from an empty database the activity table
    is empty or holds exactly the nine seeded rows: the handlers never add,
    remove or change an activity, and so activity names are distinct there
    although nothing in the table declaration asks for it. *)
Theorem reachable_activity_table (s : Store) :
  reachable s →
  (activity s = [] ∨ activity s = activity seeded) ∧
  NoDup (Activity.name <$> activity s).
Proof.
  intros Hr.
  assert (activity s = [] ∨ activity s = activity seeded) as Htable.
  { induction Hr as [|s _ IH|s n e _ IH|s n e _ IH].
    - by left.
    - right. destruct IH as [He|Hs].
      + by apply seed_initial_data_activities.
      + rewrite seed_initial_data_nonempty; [done|]. by rewrite Hs.
    - by rewrite signup_keeps_activities.
    - by rewrite unregister_keeps_activities. }
  split; [done|].
  destruct Htable as [->| ->]; [apply NoDup_nil_2 | compute_done].
Qed.

(** After startup, a signup and an unregistration the nine activities are
    there. *)
Lemma reachable_activity_table_witness :
  let s := snd (unregister_from_activity "Gym Class" "john@mergington.edu"
             (snd (signup_for_activity "Gym Class" "test@mergington.edu"
                     seeded))) in
  reachable s ∧ NoDup (Activity.name <$> activity s).
Proof.
  cbv zeta.
  assert (reachable
            (snd (unregister_from_activity "Gym Class" "john@mergington.edu"
               (snd (signup_for_activity "Gym Class" "test@mergington.edu"
                       seeded))))) as Hr.
  { apply reachable_unregister, reachable_signup, reachable_seed,
      reachable_empty. }
  split; [done|].
  exact (proj2 (reachable_activity_table _ Hr)).
Defined.

(** ** What the listing shows after a write *)

Lemma filter_unique_key {A B : Type} {Bdec : EqDecision B} (f : A → B)
    (l : list A) (x : A) :
  NoDup (f <$> l) → x ∈ l → filter (λ a, f a = f x) l = [x].
Proof.
  induction l as [|y l IH]; simpl.
  - intros _ Hx. by apply elem_of_nil in Hx.
  - rewrite NoDup_cons, elem_of_cons, filter_cons, list_elem_of_fmap.
    intros [Hy Hnd] [->|Hx].
    + destruct (decide (f y = f y)); [|done]. f_equal.
      apply filter_no_match. intros a Ha Hf. apply Hy. by exists a.
    + destruct (decide (f y = f x)) as [Hf|_]; [|by apply IH].
      exfalso. apply Hy. by exists x.
Qed.

Lemma get_activities_unique_lookup (s : Store) (act : Activity.t) :
  NoDup (Activity.name <$> activity s) → act ∈ activity s →
  get_activities s !! Activity.name act = Some (activity_info s act).
Proof.
  intros Hnd Hin.
  by rewrite get_activities_lookup, (filter_unique_key Activity.name).
Qed.

(** The listing after a write that keeps the activity table and touches
    the participants of one activity only. *)
Lemma listing_update (s s1 : Store) (n : string) (act : Activity.t) :
  NoDup (Activity.name <$> activity s) → activity_pk s →
  first_activity_named s n act →
  activity s1 = activity s →
  (∀ aid, aid ≠ Activity.id act →
          select_participants s1 aid = select_participants s aid) →
  get_activities s1 = <[n := activity_info s1 act]> (get_activities s).
Proof.
  intros Hnd Hpk Hact Htable Hother.
  apply first_activity_named_elem in Hact as [Hin <-].
  apply map_eq. intros k.
  destruct (decide (k = Activity.name act)) as [->|Hk].
  - rewrite lookup_insert_eq. apply get_activities_unique_lookup.
    + by rewrite Htable.
    + by rewrite Htable.
  - rewrite lookup_insert_ne by done.
    rewrite !get_activities_lookup, Htable.
    destruct (last _) as [a|] eqn:El; [|done]. simpl. f_equal.
    apply last_elem_of, list_elem_of_filter in El as [Hname Ha].
    unfold activity_info. f_equal. f_equal. apply Hother.
    intros Hid. apply Hk. rewrite <- Hname. f_equal.
    by apply (NoDup_fmap_eq Activity.id (activity s)).
Qed.

(** X9: where activity names and activity keys are distinct, a successful
    signup shows in the listing: nothing changes but the entry of the named
    activity, whose participants are the previous ones and the new email.
    The new email comes last when every participant key is below the
    largest key of the engine; at that bound the engine places the new row
    elsewhere, and only the content of the list is asserted. *)
Theorem listing_after_signup (s s1 : Store) (n e m : string) :
  NoDup (Activity.name <$> activity s) → activity_pk s →
  signup_for_activity n e s = (Message m, s1) →
  ∃ info new,
    get_activities s !! n = Some info ∧
    get_activities s1 =
      <[n := mkInfo (description info) (schedule info)
                    (max_participants info) new]> (get_activities s) ∧
    new ≡ₚ e :: participants info ∧
    (Forall (λ p, Participant.id p < max_rowid) (participant s) →
     new = participants info ++ [e]).
Proof.
  intros Hnd Hpk.
  destruct (signup_cases s n e)
    as [->|[->|[->|(act & Hact & He & _ & ->)]]]; [done..|].
  intros [= _ <-].
  exists (activity_info s act), (emails_of s (Activity.id act) ++ [e]).
  split_and!.
  - pose proof Hact as Hin. apply first_activity_named_elem in Hin as [Hin <-].
    by apply get_activities_unique_lookup.
  - rewrite (listing_update s _ n act); [|done..|].
    + f_equal. unfold activity_info. simpl. f_equal.
      change (emails_of (add_participant s e (Activity.id act))
                        (Activity.id act) = emails_of s (Activity.id act) ++ [e]).
      rewrite emails_of_add. by destruct (decide _).
    + intros aid Hne. rewrite select_participants_add.
      destruct (decide (Activity.id act = aid)); [done|]. apply app_nil_r.
  - symmetry. apply Permutation_cons_append.
  - done.
Qed.

(** The Chess Club's entry after test@mergington.edu signs up. *)
Lemma listing_after_signup_witness :
  signup_for_activity "Chess Club" "test@mergington.edu" seeded =
    (Message "Signed up test@mergington.edu for Chess Club",
     add_participant seeded "test@mergington.edu" 1) ∧
  ∃ info new,
    get_activities seeded !! "Chess Club" = Some info ∧
    get_activities (add_participant seeded "test@mergington.edu" 1) =
      <["Chess Club" := mkInfo (description info) (schedule info)
                               (max_participants info) new]>
        (get_activities seeded) ∧
    new ≡ₚ "test@mergington.edu" :: participants info ∧
    (Forall (λ p, Participant.id p < max_rowid) (participant seeded) →
     new = participants info ++ ["test@mergington.edu"]).
Proof.
  assert (NoDup (Activity.name <$> activity seeded)) as Hnd by compute_done.
  assert (activity_pk seeded) as Hpk by compute_done.
  assert (signup_for_activity "Chess Club" "test@mergington.edu" seeded =
          (Message "Signed up test@mergington.edu for Chess Club",
           add_participant seeded "test@mergington.edu" 1)) as Hrun
    by (by vm_compute).
  split; [exact Hrun|].
  exact (listing_after_signup seeded
           (add_participant seeded "test@mergington.edu" 1)
           "Chess Club" "test@mergington.edu"
           "Signed up test@mergington.edu for Chess Club" Hnd Hpk Hrun).
Defined.

(** X10: where activity names, activity keys and participant keys are
    distinct and no student is signed up twice, a successful unregister
    shows in the listing: the entry of the named activity loses the email,
    keeps its other participants in order, and nothing else in the listing
    changes. *)
Theorem listing_after_unregister (s s1 : Store) (n e m : string) :
  NoDup (Activity.name <$> activity s) → activity_pk s →
  participant_pk s → unique_signup s →
  unregister_from_activity n e s = (Message m, s1) →
  ∃ info,
    get_activities s !! n = Some info ∧
    get_activities s1 =
      <[n := mkInfo (description info) (schedule info)
                    (max_participants info)
                    (filter (λ x, x ≠ e) (participants info))]>
        (get_activities s).
Proof.
  intros Hnd Hapk Hpk Hu Hrun.
  destruct (unregister_success_shape s s1 n e m Hpk Hrun)
    as (act & p & l1 & l2 & Hact & Hl & Ha & Hm & ->).
  exists (activity_info s act). split.
  - pose proof Hact as Hin. apply first_activity_named_elem in Hin as [Hin <-].
    by apply get_activities_unique_lookup.
  - rewrite (listing_update s _ n act); [|done..|].
    + f_equal. unfold activity_info. simpl. f_equal.
      unfold unique_signup in Hu. rewrite Hl in Hu.
      pose proof (emails_of_after_delete (activity s) l1 l2 p Hu) as Heq.
      rewrite Ha, Hm, <- Hl, store_eta in Heq. exact Heq.
    + intros aid Hne. unfold select_participants. simpl.
      rewrite Hl, !filter_app, filter_cons.
      destruct (decide (Participant.activity_id p = aid)); [|done].
      congruence.
Qed.

(** The Chess Club's entry after daniel leaves. *)
Lemma listing_after_unregister_witness :
  unregister_from_activity "Chess Club" "daniel@mergington.edu" seeded =
    (Message "Unregistered daniel@mergington.edu from Chess Club",
     delete_participant seeded
       (Participant.mk 2 "daniel@mergington.edu" 1)) ∧
  ∃ info,
    get_activities seeded !! "Chess Club" = Some info ∧
    get_activities
      (delete_participant seeded
         (Participant.mk 2 "daniel@mergington.edu" 1)) =
      <["Chess Club" := mkInfo (description info) (schedule info)
                               (max_participants info)
                               (filter (λ x, x ≠ "daniel@mergington.edu")
                                       (participants info))]>
        (get_activities seeded).
Proof.
  assert (NoDup (Activity.name <$> activity seeded)) as Hnd by compute_done.
  assert (activity_pk seeded) as Hapk by compute_done.
  assert (participant_pk seeded) as Hpk by compute_done.
  assert (unique_signup seeded) as Hu by compute_done.
  assert (unregister_from_activity "Chess Club" "daniel@mergington.edu" seeded
          = (Message "Unregistered daniel@mergington.edu from Chess Club",
             delete_participant seeded
               (Participant.mk 2 "daniel@mergington.edu" 1))) as Hrun
    by (by vm_compute).
  split; [exact Hrun|].
  exact (listing_after_unregister seeded
           (delete_participant seeded
              (Participant.mk 2 "daniel@mergington.edu" 1))
           "Chess Club" "daniel@mergington.edu"
           "Unregistered daniel@mergington.edu from Chess Club"
           Hnd Hapk Hpk Hu Hrun).
Defined.

(** ** The keys of the listing *)

(** X11: the listing has one entry for each distinct activity name and no
    other key; where the names are distinct it has as many entries as there
    are activity rows. *)
Theorem listing_keys (s : Store) :
  dom (get_activities s) = list_to_set (Activity.name <$> activity s) ∧
  (NoDup (Activity.name <$> activity s) →
   size (get_activities s) = length (activity s)).
Proof.
  assert (dom (get_activities s) =
          (list_to_set (Activity.name <$> activity s) : gset string)) as Hdom.
  { apply set_eq. intros k.
    rewrite elem_of_dom, elem_of_list_to_set, list_elem_of_fmap,
      get_activities_lookup.
    split.
    - intros [info Hinfo].
      destruct (last _) as [a|] eqn:El; [|done].
      apply last_elem_of, list_elem_of_filter in El as [Hname Ha]. eauto.
    - intros (a & -> & Ha).
      destruct (last _) as [b|] eqn:El; [by eexists|].
      apply last_None in El.
      assert (a ∈ filter (λ b, Activity.name b = Activity.name a)
                         (activity s)) as Hf
        by (by apply list_elem_of_filter).
      rewrite El in Hf. by apply elem_of_nil in Hf. }
  split; [done|].
  intros Hnd. rewrite <- size_dom, Hdom, size_list_to_set by done.
  apply length_fmap.
Qed.

(** ** Seeding only appends *)

Lemma add_participants_appends (s : Store) (aid : Z) (emails : list string) :
  ∃ new,
    activity (foldl (λ s' e, add_participant s' e aid) s emails) = activity s ∧
    participant (foldl (λ s' e, add_participant s' e aid) s emails) =
      participant s ++ new ∧
    length new = length emails ∧
    Forall (λ p, Participant.activity_id p = aid) new.
Proof.
  revert s. induction emails as [|e emails IH]; intros s; simpl.
  - exists []. by rewrite app_nil_r.
  - destruct (IH (add_participant s e aid)) as (new & Ha & Hp & Hlen & Hall).
    eexists (_ :: new). rewrite Ha, Hp. simpl.
    rewrite <- app_assoc. split_and!; [done..|by f_equal|].
    by apply Forall_cons.
Qed.

Lemma seed_one_appends (s : Store) (entry : seed_entry) :
  ∃ act new,
    activity (seed_one s entry) = activity s ++ [act] ∧
    participant (seed_one s entry) = participant s ++ new ∧
    length new = length (snd entry) ∧
    (Activity.id act ∉ (Activity.id <$> activity s)) ∧
    Forall (λ p, Participant.activity_id p = Activity.id act) new.
Proof.
  destruct entry as [[[[n d] sch] m] emails]. unfold seed_one, add_activity.
  set (act := Activity.mk (next_id (Activity.id <$> activity s)) n d sch m).
  destruct (add_participants_appends
              (mkStore (activity s ++ [act]) (participant s))
              (Activity.id act) emails) as (new & Ha & Hp & Hlen & Hall).
  exists act, new. split_and!; [done..|apply next_id_fresh|done].
Qed.

Lemma seed_entries_append (s : Store) (entries : list seed_entry) :
  ∃ new_activities new_participants,
    activity (foldl seed_one s entries) = activity s ++ new_activities ∧
    participant (foldl seed_one s entries) =
      participant s ++ new_participants ∧
    length new_activities = length entries ∧
    length new_participants =
      sum_list (length ∘ snd <$> entries) ∧
    Forall (λ p, Participant.activity_id p
                 ∈ (Activity.id <$> new_activities)) new_participants.
Proof.
  revert s. induction entries as [|entry entries IH]; intros s; simpl.
  - exists [], []. by rewrite !app_nil_r.
  - destruct (seed_one_appends s entry) as (act & new & Ha & Hp & Hlen & _ & Hall).
    destruct (IH (seed_one s entry)) as (na & np & Ha' & Hp' & Hla & Hlp & Hfk).
    exists (act :: na), (new ++ np). rewrite Ha', Hp', Ha, Hp.
    rewrite <- !app_assoc. simpl. split_and!; [done..|by f_equal| |].
    + by rewrite length_app, Hlen, Hlp.
    + apply Forall_app. split.
      * eapply Forall_impl; [exact Hall|]. intros p ->. left.
      * eapply Forall_impl; [exact Hfk|]. intros p Hin. by right.
Qed.

Lemma seed_initial_data_empty (s : Store) :
  activity s = [] → seed_initial_data s = foldl seed_one s initial.
Proof. unfold seed_initial_data. by intros ->. Qed.

(** X12: startup seeding never removes or rewrites a row.  Run on a store
    with an activity row it adds nothing; run on a store without activity
    rows it leaves the participant rows found there in place and appends
    nine activity rows and eighteen participant rows, each of the latter
    referencing one of the new activities. *)
Theorem seed_only_appends (s : Store) :
  ∃ new_activities new_participants,
    activity (seed_initial_data s) = activity s ++ new_activities ∧
    participant (seed_initial_data s) = participant s ++ new_participants ∧
    (activity s ≠ [] → new_activities = [] ∧ new_participants = []) ∧
    (activity s = [] →
     length new_activities = 9%nat ∧ length new_participants = 18%nat ∧
     Forall (λ p, Participant.activity_id p
                  ∈ (Activity.id <$> new_activities)) new_participants).
Proof.
  destruct (decide (activity s = [])) as [He|Hne].
  - destruct (seed_entries_append s initial)
      as (na & np & Ha & Hp & Hla & Hlp & Hfk).
    exists na, np. rewrite (seed_initial_data_empty s He). split_and!.
    + exact Ha.
    + exact Hp.
    + intros Hne. by destruct Hne.
    + intros _. split_and!; [exact Hla | exact Hlp | exact Hfk].
  - exists [], []. rewrite (seed_initial_data_nonempty s Hne), !app_nil_r.
    split_and!; [reflexivity..| |].
    + by intros _.
    + intros He. by destruct Hne.
Qed.

(** ** The listing and the invariants *)

Lemma emails_of_NoDup (s : Store) (aid : Z) :
  unique_signup s → NoDup (emails_of s aid).
Proof.
  unfold unique_signup, emails_of, select_participants. intros Hu.
  apply (NoDup_fmap_1 (λ e : string, (aid, e))).
  rewrite <- list_fmap_compose.
  assert (sublist
            (signup_key <$> filter (λ p, Participant.activity_id p = aid)
                                   (participant s))
            (signup_key <$> participant s)) as Hsub
    by apply fmap_sublist, sublist_filter.
  eapply sublist_NoDup in Hsub; [|exact Hu].
  erewrite list_fmap_ext; [exact Hsub|].
  intros i p Hp. apply list_elem_of_lookup_2, list_elem_of_filter in Hp as [<- _].
  done.
Qed.

(** X13: in a store where no activity is over capacity and no student is
    signed up twice, every entry of the listing shows at most
    max_participants emails and shows no email twice. *)
Theorem listing_respects_invariants (s : Store) (n : string)
    (info : ActivityInfo) :
  capacity_ok s → unique_signup s →
  get_activities s !! n = Some info →
  Z.of_nat (length (participants info)) ≤ max_participants info ∧
  NoDup (participants info).
Proof.
  intros Hcap Hu. rewrite get_activities_lookup.
  destruct (last _) as [a|] eqn:El; [|done]. intros [= <-].
  apply last_elem_of, list_elem_of_filter in El as [_ Ha]. simpl. split.
  - rewrite length_fmap.
    exact (proj1 (Forall_forall _ _) Hcap a Ha).
  - by apply emails_of_NoDup.
Qed.

(** The Math Club's entry on the seeded store. *)
Lemma listing_respects_invariants_witness :
  get_activities seeded !! "Math Club" =
    Some (mkInfo
            "Solve challenging problems and participate in math competitions"
            "Tuesdays, 3:30 PM - 4:30 PM" 10
            ["james@mergington.edu"; "benjamin@mergington.edu"]) ∧
  NoDup ["james@mergington.edu"; "benjamin@mergington.edu"].
Proof.
  assert (capacity_ok seeded) as Hcap by compute_done.
  assert (unique_signup seeded) as Hu by compute_done.
  assert (get_activities seeded !! "Math Club" =
          Some (mkInfo
                  "Solve challenging problems and participate in math competitions"
                  "Tuesdays, 3:30 PM - 4:30 PM" 10
                  ["james@mergington.edu"; "benjamin@mergington.edu"])) as Hl
    by (by vm_compute).
  split; [exact Hl|].
  exact (proj2 (listing_respects_invariants seeded "Math Club" _ Hcap Hu Hl)).
Defined.
